(** * include/yarp/defines.h: visibility and feature-test macros

    The header is a sequence of preprocessor directives.  Its whole effect
    is the change it makes to the macro environment of the translation unit
    that includes it, together with the redefinitions the preprocessor has
    to report.  We embed the directives the header uses ([#define],
    [#ifndef], [#if defined(...)], [#else], [#endif]) with their meaning on
    a macro environment, transcribe the header line by line, and prove the
    properties of the transcription. *)

From stdpp Require Import gmap strings list fin_maps.

(** ** Macro environments *)

(** Preprocessing tokens of a replacement list. *)
Inductive pp_token :=
  | Ident (s : string)
  | Punct (s : string)
  | StrLit (s : string)
  | PPNumber (s : string).

#[global] Instance pp_token_eq_dec : EqDecision pp_token.
Proof. solve_decision. Defined.

(** A macro definition: [params = None] for an object-like macro,
    [Some l] for a function-like one.  The header itself only defines
    object-like macros, the including context may have defined either. *)
Record macro := Macro {
  params : option (list string);
  replacement : list pp_token
}.

#[global] Instance macro_eq_dec : EqDecision macro.
Proof. solve_decision. Defined.

Definition object_like (body : list pp_token) : macro :=
  {| params := None; replacement := body |}.

(** A [#define] of a name that is already defined.  The preprocessor
    reports it; the new definition takes effect. *)
Record redefinition := Redefined {
  redef_name : string;
  redef_old : macro;
  redef_new : macro
}.

#[global] Instance redefinition_eq_dec : EqDecision redefinition.
Proof. solve_decision. Defined.

(** Redefining a macro with the very same definition is allowed
    (C11 6.10.3p2); any other redefinition is a conflict. *)
Definition is_conflict (r : redefinition) : bool :=
  bool_decide (redef_old r ≠ redef_new r).

(** The state of the preprocessor while it reads a translation unit. *)
Record pp_state := PPState {
  macros : gmap string macro;
  redefs : list redefinition
}.

Definition conflicts (st : pp_state) : list redefinition :=
  filter (λ r, is_conflict r = true) (redefs st).

Definition start (env : gmap string macro) : pp_state :=
  {| macros := env; redefs := [] |}.

(** ** Directives *)

(** The controlling condition of a conditional group:
    [#ifndef X] is [NotDefined X], [#if defined(X)] is [IsDefined X]. *)
Inductive condition :=
  | IsDefined (name : string)
  | NotDefined (name : string).

#[local] Set Warnings "-register-all".

(** [IfGroup c t e] is [#if c  t  #else  e  #endif]; a group without
    [#else] has [e = []]. *)
Inductive directive :=
  | Define (name : string) (body : list pp_token)
  | IfGroup (c : condition) (then_ else_ : list directive).

Definition defined (env : gmap string macro) (name : string) : bool :=
  match env !! name with
  | Some _ => true
  | None => false
  end.

Definition eval_condition (c : condition) (env : gmap string macro) : bool :=
  match c with
  | IsDefined name => defined env name
  | NotDefined name => negb (defined env name)
  end.

(** [#define name body].  When [name] is already defined the
    preprocessor reports the redefinition and the new definition takes
    effect, as GCC, Clang and MSVC do. *)
Definition define (name : string) (body : list pp_token) (st : pp_state)
  : pp_state :=
  let new := object_like body in
  match macros st !! name with
  | Some old =>
      {| macros := <[name := new]> (macros st);
         redefs := redefs st ++ [Redefined name old new] |}
  | None =>
      {| macros := <[name := new]> (macros st);
         redefs := redefs st |}
  end.

Fixpoint exec (d : directive) (st : pp_state) : pp_state :=
  match d with
  | Define name body => define name body st
  | IfGroup c then_ else_ =>
      if eval_condition c (macros st)
      then fold_left (λ s d', exec d' s) then_ st
      else fold_left (λ s d', exec d' s) else_ st
  end.

Definition exec_group (g : list directive) (st : pp_state) : pp_state :=
  fold_left (λ s d, exec d s) g st.

(** ** The header *)

Definition YARP_DEFINES_H : string := "YARP_DEFINES_H".
Definition XOPEN_SOURCE : string := "_XOPEN_SOURCE".
Definition YP_IMPORTED_FUNCTION : string := "YP_IMPORTED_FUNCTION".
Definition YP_EXPORTED_FUNCTION : string := "YP_EXPORTED_FUNCTION".
Definition YP_ATTRIBUTE_UNUSED : string := "YP_ATTRIBUTE_UNUSED".
Definition WIN32 : string := "_WIN32".

(** [__declspec(dllimport)] *)
Definition declspec_dllimport : list pp_token :=
  [Ident "__declspec"; Punct "("; Ident "dllimport"; Punct ")"].

(** [__declspec(dllexport)] *)
Definition declspec_dllexport : list pp_token :=
  [Ident "__declspec"; Punct "("; Ident "dllexport"; Punct ")"].

(** [__attribute__((__visibility__("default")))];
    [StrLit "default"] is the string literal with its quotes. *)
Definition visibility_default : list pp_token :=
  [Ident "__attribute__"; Punct "("; Punct "(";
   Ident "__visibility__"; Punct "("; StrLit "default"; Punct ")";
   Punct ")"; Punct ")"].

(** [__attribute__((unused))] *)
Definition attribute_unused : list pp_token :=
  [Ident "__attribute__"; Punct "("; Punct "(";
   Ident "unused"; Punct ")"; Punct ")"].

(** Lines 4 to 34 of the header. *)
Definition defines_h : list directive :=
  [ IfGroup (NotDefined YARP_DEFINES_H)                          (* 4 *)
      [ Define YARP_DEFINES_H [];                                (* 5 *)
        IfGroup (NotDefined XOPEN_SOURCE)                        (* 8 *)
          [ Define XOPEN_SOURCE [PPNumber "700"] ]               (* 9 *)
          [];                                                    (* 10 *)
        IfGroup (NotDefined YP_IMPORTED_FUNCTION)                (* 12 *)
          [ IfGroup (IsDefined WIN32)                            (* 13 *)
              [ Define YP_IMPORTED_FUNCTION declspec_dllimport ] (* 14 *)
              [ Define YP_IMPORTED_FUNCTION visibility_default ] (* 16 *)
          ]
          [];                                                    (* 18 *)
        IfGroup (NotDefined YP_EXPORTED_FUNCTION)                (* 20 *)
          [ IfGroup (IsDefined WIN32)                            (* 21 *)
              [ Define YP_EXPORTED_FUNCTION declspec_dllexport ] (* 22 *)
              [ Define YP_EXPORTED_FUNCTION visibility_default ] (* 24 *)
          ]
          [];                                                    (* 26 *)
        IfGroup (IsDefined WIN32)                                (* 28 *)
          [ Define YP_ATTRIBUTE_UNUSED [] ]                      (* 29 *)
          [ Define YP_ATTRIBUTE_UNUSED attribute_unused ]        (* 31 *)
      ]
      []                                                         (* 34 *)
  ].

(** Processing the header, as [#include "yarp/defines.h"] does. *)
Definition process_header (st : pp_state) : pp_state :=
  exec_group defines_h st.

(** The header included in a translation unit whose macro environment is
    [env] at that point. *)
Definition include_header (env : gmap string macro) : pp_state :=
  process_header (start env).

(** What an object-like macro [name] expands to, if it is one. *)
Definition expansion (env : gmap string macro) (name : string)
  : option (list pp_token) :=
  match env !! name with
  | Some {| params := None; replacement := body |} => Some body
  | _ => None
  end.

(** ** What the header supplies *)

(** The definition the header itself gives to each name it defines, on the
    Windows branch ([win = true]) and on the other branch. *)
Definition header_supplies (win : bool) (name : string) : option macro :=
  if decide (name = YARP_DEFINES_H) then Some (object_like [])
  else if decide (name = XOPEN_SOURCE) then Some (object_like [PPNumber "700"])
  else if decide (name = YP_IMPORTED_FUNCTION) then
    Some (object_like (if win then declspec_dllimport else visibility_default))
  else if decide (name = YP_EXPORTED_FUNCTION) then
    Some (object_like (if win then declspec_dllexport else visibility_default))
  else if decide (name = YP_ATTRIBUTE_UNUSED) then
    Some (object_like (if win then [] else attribute_unused))
  else None.

(** The four symbols the header is there to provide, and the three of them
    whose [#define] sits inside an [#ifndef] of the same name. *)
Definition provided_symbols : list string :=
  [XOPEN_SOURCE; YP_IMPORTED_FUNCTION; YP_EXPORTED_FUNCTION;
   YP_ATTRIBUTE_UNUSED].

Definition guarded_symbols : list string :=
  [XOPEN_SOURCE; YP_IMPORTED_FUNCTION; YP_EXPORTED_FUNCTION].

Definition header_names : list string :=
  YARP_DEFINES_H :: provided_symbols.

(** Two environments agree on a list of names. *)
Definition agree_on (names : list string) (env1 env2 : gmap string macro)
  : Prop :=
  Forall (λ s, env1 !! s = env2 !! s) names.

(** ** Sample translation units *)

(** [__attribute__((__unused__))], a spelling an including context may
    choose for the unused marker. *)
Definition attribute_unused_reserved : list pp_token :=
  [Ident "__attribute__"; Punct "("; Punct "(";
   Ident "__unused__"; Punct ")"; Punct ")"].

(** [-DYP_ATTRIBUTE_UNUSED=__attribute__((__unused__))] *)
Definition env_unused_predefined : gmap string macro :=
  {[ YP_ATTRIBUTE_UNUSED := object_like attribute_unused_reserved ]}.

(** [-D_XOPEN_SOURCE=600] *)
Definition env_xopen_600 : gmap string macro :=
  {[ XOPEN_SOURCE := object_like [PPNumber "600"] ]}.

(** [-DYARP_DEFINES_H] *)
Definition env_guard_predefined : gmap string macro :=
  {[ YARP_DEFINES_H := object_like [] ]}.

(** [-DYARP_DEFINES_H -D_WIN32] *)
Definition env_guard_predefined_windows : gmap string macro :=
  <[ WIN32 := object_like [] ]> env_guard_predefined.

(** [-D_WIN32], and a user macro of no concern to the header. *)
Definition env_windows : gmap string macro :=
  {[ WIN32 := object_like []; "NDEBUG" := object_like [] ]}.

(** A Linux build overriding the export annotation. *)
Definition env_linux_override : gmap string macro :=
  {[ "__linux__" := object_like [PPNumber "1"];
     YP_EXPORTED_FUNCTION := object_like [] ]}.

(** The same override on a macOS build. *)
Definition env_apple_override : gmap string macro :=
  {[ "__APPLE__" := object_like [PPNumber "1"];
     YP_EXPORTED_FUNCTION := object_like [] ]}.

(** ** The header as a whole *)

(** The definitions the header falls back on when the including context
    gives none: lines 5, 9, 14 or 16, and 22 or 24. *)
Definition header_defaults (win : bool) : gmap string macro :=
  <[ YARP_DEFINES_H := object_like [] ]>
  (<[ XOPEN_SOURCE := object_like [PPNumber "700"] ]>
  (<[ YP_IMPORTED_FUNCTION :=
        object_like (if win then declspec_dllimport else visibility_default) ]>
  (<[ YP_EXPORTED_FUNCTION :=
        object_like (if win then declspec_dllexport else visibility_default) ]>
   ∅))).

(** The definition lines 29 and 31 give to the unused marker. *)
Definition unused_marker (win : bool) : macro :=
  object_like (if win then [] else attribute_unused).

(** A state with earlier reports put in front of its own. *)
Definition with_log (l : list redefinition) (st : pp_state) : pp_state :=
  {| macros := macros st; redefs := l ++ redefs st |}.

(** * Lemmas *)

(** ** Basic facts about [define] and the header *)

Lemma macros_define name body st :
  macros (define name body st) = <[name := object_like body]> (macros st).
Proof. unfold define. by destruct (macros st !! name). Qed.

Lemma redefs_define name body st :
  redefs (define name body st) =
  redefs st ++ match macros st !! name with
               | Some old => [Redefined name old (object_like body)]
               | None => []
               end.
Proof.
  unfold define. destruct (macros st !! name); simpl; [done|].
  by rewrite app_nil_r.
Qed.

Lemma exec_group_nil st : exec_group [] st = st.
Proof. reflexivity. Qed.

Lemma exec_group_cons d g st :
  exec_group (d :: g) st = exec_group g (exec d st).
Proof. reflexivity. Qed.

Lemma exec_define name body st :
  exec (Define name body) st = define name body st.
Proof. reflexivity. Qed.

Lemma exec_ifndef name t e st :
  exec (IfGroup (NotDefined name) t e) st =
  if defined (macros st) name then exec_group e st else exec_group t st.
Proof.
  cbn [exec eval_condition]. unfold exec_group.
  by destruct (defined (macros st) name).
Qed.

Lemma exec_if_defined name t e st :
  exec (IfGroup (IsDefined name) t e) st =
  if defined (macros st) name then exec_group t st else exec_group e st.
Proof. reflexivity. Qed.

Lemma process_header_unfold st :
  process_header st =
  if defined (macros st) YARP_DEFINES_H then st else
  let s1 := define YARP_DEFINES_H [] st in
  let s2 := if defined (macros s1) XOPEN_SOURCE then s1
            else define XOPEN_SOURCE [PPNumber "700"] s1 in
  let s3 := if defined (macros s2) YP_IMPORTED_FUNCTION then s2
            else if defined (macros s2) WIN32
                 then define YP_IMPORTED_FUNCTION declspec_dllimport s2
                 else define YP_IMPORTED_FUNCTION visibility_default s2 in
  let s4 := if defined (macros s3) YP_EXPORTED_FUNCTION then s3
            else if defined (macros s3) WIN32
                 then define YP_EXPORTED_FUNCTION declspec_dllexport s3
                 else define YP_EXPORTED_FUNCTION visibility_default s3 in
  if defined (macros s4) WIN32
  then define YP_ATTRIBUTE_UNUSED [] s4
  else define YP_ATTRIBUTE_UNUSED attribute_unused s4.
Proof.
  unfold process_header, defines_h. cbn zeta.
  rewrite exec_group_cons, exec_ifndef, !exec_group_nil.
  destruct (defined (macros st) YARP_DEFINES_H); [done|].
  repeat first
    [ rewrite exec_group_cons | rewrite exec_group_nil | rewrite exec_define
    | rewrite exec_ifndef | rewrite exec_if_defined ].
  reflexivity.
Qed.

(** ** Reading the state after a chain of [#define]s *)

Lemma defined_true env name : defined env name = true ↔ is_Some (env !! name).
Proof.
  unfold defined. rewrite <- not_eq_None_Some.
  by destruct (env !! name).
Qed.

Lemma defined_false env name : defined env name = false ↔ env !! name = None.
Proof. unfold defined. by destruct (env !! name). Qed.

Lemma lookup_define_eq name body st :
  macros (define name body st) !! name = Some (object_like body).
Proof. rewrite macros_define. apply lookup_insert_eq. Qed.

Lemma lookup_define_ne name body st k :
  name ≠ k → macros (define name body st) !! k = macros st !! k.
Proof. intros Hne. rewrite macros_define. by apply lookup_insert_ne. Qed.

Lemma defined_define_ne name body st k :
  name ≠ k → defined (macros (define name body st)) k = defined (macros st) k.
Proof. intros Hne. unfold defined. by rewrite lookup_define_ne. Qed.

Lemma macros_start env : macros (start env) = env.
Proof. reflexivity. Qed.

(** The names the header mentions are pairwise different. *)
Ltac names_differ :=
  unfold YARP_DEFINES_H, XOPEN_SOURCE, YP_IMPORTED_FUNCTION,
    YP_EXPORTED_FUNCTION, YP_ATTRIBUTE_UNUSED, WIN32;
  discriminate.

(** Follow the header through its conditional groups: every test of
    [defined] is brought back to a test on the initial environment and
    then decided both ways. *)
Ltac walk_header :=
  rewrite process_header_unfold; cbn zeta;
  repeat match goal with
    | |- context [macros (start ?e)] => rewrite (macros_start e)
    | H : defined ?e ?k = _ |- context [defined ?e ?k] => rewrite H
    | |- context [defined (macros (define ?n ?b ?st)) ?k] =>
        rewrite (defined_define_ne n b st k) by names_differ
    | |- context [if defined ?e ?k then _ else _] =>
        first [ is_var e | match e with macros ?s => is_var s end ];
        destruct (defined e k) eqn:?
    end.

(** Read a lookup in the state reached by the walk. *)
Ltac read_macros :=
  repeat first
    [ rewrite lookup_define_eq
    | rewrite lookup_define_ne by names_differ ].

(** ** The inclusion guard *)

Lemma process_header_guarded st :
  defined (macros st) YARP_DEFINES_H = true → process_header st = st.
Proof. intros H. rewrite process_header_unfold. by rewrite H. Qed.

Lemma guard_defined_after st :
  defined (macros (process_header st)) YARP_DEFINES_H = true.
Proof.
  destruct (defined (macros st) YARP_DEFINES_H) eqn:Hg.
  - by rewrite process_header_guarded.
  - walk_header; apply defined_true; read_macros; by eexists.
Qed.

Lemma process_header_idempotent st :
  process_header (process_header st) = process_header st.
Proof. apply process_header_guarded, guard_defined_after. Qed.

(** ** Reading the final environment *)

Ltac know_lookups :=
  repeat match goal with
    | H : defined _ _ = false |- _ => apply defined_false in H
    | H : defined _ _ = true |- _ =>
        apply defined_true in H; destruct H as [? H]
    end;
  rewrite ?macros_start in *.

Ltac settle :=
  know_lookups; read_macros; rewrite ?macros_start;
  repeat match goal with
    | H : ?e !! ?k = _ |- context [?e !! ?k] => rewrite H
    end;
  try done.

Lemma lookup_XOPEN_SOURCE env :
  defined env YARP_DEFINES_H = false →
  macros (include_header env) !! XOPEN_SOURCE =
  Some (default (object_like [PPNumber "700"]) (env !! XOPEN_SOURCE)).
Proof. intros Hg. unfold include_header. walk_header; settle. Qed.

Lemma lookup_YP_IMPORTED_FUNCTION env :
  defined env YARP_DEFINES_H = false →
  macros (include_header env) !! YP_IMPORTED_FUNCTION =
  Some (default
          (object_like (if defined env WIN32 then declspec_dllimport
                        else visibility_default))
          (env !! YP_IMPORTED_FUNCTION)).
Proof.
  intros Hg. unfold include_header.
  destruct (defined env WIN32) eqn:Hw; walk_header; settle.
Qed.

Lemma lookup_YP_EXPORTED_FUNCTION env :
  defined env YARP_DEFINES_H = false →
  macros (include_header env) !! YP_EXPORTED_FUNCTION =
  Some (default
          (object_like (if defined env WIN32 then declspec_dllexport
                        else visibility_default))
          (env !! YP_EXPORTED_FUNCTION)).
Proof.
  intros Hg. unfold include_header.
  destruct (defined env WIN32) eqn:Hw; walk_header; settle.
Qed.

Lemma lookup_YP_ATTRIBUTE_UNUSED env :
  defined env YARP_DEFINES_H = false →
  macros (include_header env) !! YP_ATTRIBUTE_UNUSED =
  Some (object_like (if defined env WIN32 then [] else attribute_unused)).
Proof.
  intros Hg. unfold include_header.
  destruct (defined env WIN32) eqn:Hw; walk_header; settle.
Qed.

Lemma elem_of_header_names name :
  name ∈ header_names ↔
  name = YARP_DEFINES_H ∨ name = XOPEN_SOURCE ∨ name = YP_IMPORTED_FUNCTION ∨
  name = YP_EXPORTED_FUNCTION ∨ name = YP_ATTRIBUTE_UNUSED.
Proof.
  unfold header_names, provided_symbols.
  rewrite !elem_of_cons, elem_of_nil. tauto.
Qed.

Lemma elem_of_provided_symbols name :
  name ∈ provided_symbols ↔
  name = XOPEN_SOURCE ∨ name = YP_IMPORTED_FUNCTION ∨
  name = YP_EXPORTED_FUNCTION ∨ name = YP_ATTRIBUTE_UNUSED.
Proof.
  unfold provided_symbols. rewrite !elem_of_cons, elem_of_nil. tauto.
Qed.

Lemma elem_of_guarded_symbols name :
  name ∈ guarded_symbols ↔
  name = XOPEN_SOURCE ∨ name = YP_IMPORTED_FUNCTION ∨
  name = YP_EXPORTED_FUNCTION.
Proof.
  unfold guarded_symbols. rewrite !elem_of_cons, elem_of_nil. tauto.
Qed.

Lemma lookup_other_name env name :
  name ∉ header_names →
  macros (include_header env) !! name = env !! name.
Proof.
  intros Hout. unfold include_header.
  assert (YARP_DEFINES_H ≠ name ∧ XOPEN_SOURCE ≠ name ∧
          YP_IMPORTED_FUNCTION ≠ name ∧ YP_EXPORTED_FUNCTION ≠ name ∧
          YP_ATTRIBUTE_UNUSED ≠ name) as (? & ? & ? & ? & ?).
  { rewrite elem_of_header_names in Hout.
    repeat split; intros <-; apply Hout; tauto. }
  walk_header; rewrite ?macros_start;
    repeat (rewrite lookup_define_ne by assumption); done.
Qed.

Lemma redefs_include_header env :
  redefs (include_header env) =
  if defined env YARP_DEFINES_H then []
  else match env !! YP_ATTRIBUTE_UNUSED with
       | Some old =>
           [Redefined YP_ATTRIBUTE_UNUSED old
              (object_like (if defined env WIN32 then []
                            else attribute_unused))]
       | None => []
       end.
Proof.
  unfold include_header.
  destruct (defined env YARP_DEFINES_H) eqn:Hg,
           (defined env WIN32) eqn:Hw;
    walk_header; try done;
    know_lookups;
    repeat (rewrite redefs_define; read_macros; rewrite ?macros_start;
            repeat match goal with
              | H : ?e !! ?k = _ |- context [?e !! ?k] => rewrite H
              end;
            rewrite ?app_nil_r);
    by destruct (env !! YP_ATTRIBUTE_UNUSED).
Qed.

(** The table [header_supplies] is what the header yields when nothing
    but the platform macro is defined. *)
Lemma header_supplies_posix name :
  macros (include_header ∅) !! name = header_supplies false name.
Proof.
  unfold header_supplies.
  repeat case_decide; subst;
    [ unfold include_header; walk_header; settle
    | by rewrite lookup_XOPEN_SOURCE
    | by rewrite lookup_YP_IMPORTED_FUNCTION
    | by rewrite lookup_YP_EXPORTED_FUNCTION
    | by rewrite lookup_YP_ATTRIBUTE_UNUSED
    | rewrite lookup_other_name; [done|] ].
  rewrite elem_of_header_names. tauto.
Qed.

Lemma header_supplies_windows name body :
  name ≠ WIN32 →
  macros (include_header {[ WIN32 := body ]}) !! name
  = header_supplies true name.
Proof.
  intros Hne. unfold header_supplies.
  assert (defined ({[ WIN32 := body ]} : gmap string macro) WIN32 = true)
    as Hw by (apply defined_true; rewrite lookup_singleton_eq; by eexists).
  assert (∀ k, k ≠ WIN32 →
            ({[ WIN32 := body ]} : gmap string macro) !! k = None) as Hk
    by (intros; by apply lookup_singleton_ne).
  assert (defined ({[ WIN32 := body ]} : gmap string macro) YARP_DEFINES_H
          = false) as Hg by (apply defined_false, Hk; names_differ).
  repeat case_decide; subst.
  - unfold include_header; walk_header; settle.
  - rewrite lookup_XOPEN_SOURCE, Hk by done. done.
  - rewrite lookup_YP_IMPORTED_FUNCTION, Hw, Hk by done. done.
  - rewrite lookup_YP_EXPORTED_FUNCTION, Hw, Hk by done. done.
  - rewrite lookup_YP_ATTRIBUTE_UNUSED, Hw by done. done.
  - rewrite lookup_other_name, Hk; [done..|].
    rewrite elem_of_header_names. tauto.
Qed.

(** * Properties of the header *)

(** ** Override respect *)

(** C1, as stated, fails for [YP_ATTRIBUTE_UNUSED]: with
    [YP_ATTRIBUTE_UNUSED] predefined as [__attribute__((__unused__))] on
    the non-Windows branch, line 31 replaces the caller's definition by
    [__attribute__((unused))]. *)
Lemma unused_marker_overridden :
  env_unused_predefined !! YP_ATTRIBUTE_UNUSED
    = Some (object_like attribute_unused_reserved) ∧
  defined env_unused_predefined WIN32 = false ∧
  macros (include_header env_unused_predefined) !! YP_ATTRIBUTE_UNUSED
    = Some (object_like attribute_unused) ∧
  macros (include_header env_unused_predefined) !! YP_ATTRIBUTE_UNUSED
    ≠ env_unused_predefined !! YP_ATTRIBUTE_UNUSED.
Proof.
  assert (macros (include_header env_unused_predefined)
            !! YP_ATTRIBUTE_UNUSED = Some (object_like attribute_unused))
    as Hafter by (vm_compute; reflexivity).
  assert (env_unused_predefined !! YP_ATTRIBUTE_UNUSED
          = Some (object_like attribute_unused_reserved))
    as Hbefore by (vm_compute; reflexivity).
  split; [exact Hbefore|]. split; [vm_compute; reflexivity|].
  split; [exact Hafter|]. rewrite Hafter, Hbefore. discriminate.
Qed.

(** C1, amended: each of [_XOPEN_SOURCE], [YP_IMPORTED_FUNCTION] and
    [YP_EXPORTED_FUNCTION] that is already defined when the header is
    processed keeps its definition, on both platform branches (the
    environment is arbitrary, so [_WIN32] may be defined or not).
    [YP_ATTRIBUTE_UNUSED] has no [#ifndef] of its own: unless the inclusion
    guard is already defined, the header gives it the definition of the
    platform branch, whatever the caller supplied. *)
Theorem guarded_symbols_keep_caller_definition (env : gmap string macro) :
  (∀ s, s ∈ guarded_symbols → is_Some (env !! s) →
        macros (include_header env) !! s = env !! s) ∧
  (defined env YARP_DEFINES_H = false →
   macros (include_header env) !! YP_ATTRIBUTE_UNUSED
   = header_supplies (defined env WIN32) YP_ATTRIBUTE_UNUSED).
Proof.
  split.
  - intros s Hs [m Hm].
    destruct (defined env YARP_DEFINES_H) eqn:Hg.
    { unfold include_header. by rewrite process_header_guarded. }
    apply elem_of_guarded_symbols in Hs as [-> | [-> | ->]].
    + by rewrite lookup_XOPEN_SOURCE, Hm.
    + by rewrite lookup_YP_IMPORTED_FUNCTION, Hm.
    + by rewrite lookup_YP_EXPORTED_FUNCTION, Hm.
  - intros Hg. by rewrite lookup_YP_ATTRIBUTE_UNUSED.
Qed.

Lemma guarded_symbols_keep_caller_definition_witness :
  macros (include_header env_xopen_600) !! XOPEN_SOURCE
    = env_xopen_600 !! XOPEN_SOURCE ∧
  macros (include_header env_xopen_600) !! YP_ATTRIBUTE_UNUSED
    = header_supplies (defined env_xopen_600 WIN32) YP_ATTRIBUTE_UNUSED.
Proof.
  destruct (guarded_symbols_keep_caller_definition env_xopen_600)
    as [Hkeep Hunused].
  split.
  - apply Hkeep.
    + apply elem_of_guarded_symbols. left. reflexivity.
    + exists (object_like [PPNumber "600"]). vm_compute. reflexivity.
  - apply Hunused. vm_compute. reflexivity.
Defined.

(** ** Redefinitions *)

(** C2, as stated, fails: the [#define] of [YP_ATTRIBUTE_UNUSED] (lines 29
    and 31) is reached without a test of [YP_ATTRIBUTE_UNUSED].  With the
    symbol predefined as [__attribute__((__unused__))], including the
    header redefines it with a different replacement list. *)
Lemma unused_marker_redefinition_conflict :
  conflicts (include_header env_unused_predefined)
  = [Redefined YP_ATTRIBUTE_UNUSED
       (object_like attribute_unused_reserved)
       (object_like attribute_unused)].
Proof. vm_compute. reflexivity. Qed.

(** C2, amended: the header tests [YARP_DEFINES_H], [_XOPEN_SOURCE],
    [YP_IMPORTED_FUNCTION] and [YP_EXPORTED_FUNCTION] before it defines
    them, so none of them is ever redefined, whatever the including context
    predefined.  [YP_ATTRIBUTE_UNUSED] is defined without such a test: it
    is the only macro the header can redefine, and it is redefined exactly
    when the including context predefined it and [YARP_DEFINES_H] is not
    defined; the redefinition replaces the caller's definition by the one
    of the platform branch. *)
Theorem only_unused_marker_redefined (env : gmap string macro) :
  (∀ r, r ∈ redefs (include_header env) →
        redef_name r = YP_ATTRIBUTE_UNUSED ∧
        env !! YP_ATTRIBUTE_UNUSED = Some (redef_old r) ∧
        Some (redef_new r)
        = header_supplies (defined env WIN32) YP_ATTRIBUTE_UNUSED) ∧
  (redefs (include_header env) ≠ [] ↔
   defined env YARP_DEFINES_H = false ∧
   is_Some (env !! YP_ATTRIBUTE_UNUSED)).
Proof.
  rewrite redefs_include_header.
  destruct (defined env YARP_DEFINES_H) eqn:Hg.
  { split; [intros r Hr; by apply elem_of_nil in Hr|].
    split; [done | by intros [? _]]. }
  destruct (env !! YP_ATTRIBUTE_UNUSED) as [old|] eqn:Hu.
  - split.
    + intros r Hr. apply list_elem_of_singleton in Hr as ->. done.
    + split; [by eauto | done].
  - split; [intros r Hr; by apply elem_of_nil in Hr|].
    split; [done | intros [_ [? ?]]; done].
Qed.

Lemma only_unused_marker_redefined_witness :
  redef_name (Redefined YP_ATTRIBUTE_UNUSED
                (object_like attribute_unused_reserved)
                (object_like attribute_unused))
  = YP_ATTRIBUTE_UNUSED ∧
  redefs (include_header env_xopen_600) = [].
Proof.
  split.
  - apply (proj1 (only_unused_marker_redefined env_unused_predefined)).
    vm_compute. apply list_elem_of_singleton. reflexivity.
  - destruct (decide (redefs (include_header env_xopen_600) = []))
      as [Hnone | Hsome]; [exact Hnone|].
    apply (proj2 (only_unused_marker_redefined env_xopen_600)) in Hsome
      as [_ [m Hm]].
    vm_compute in Hm. discriminate Hm.
Defined.

(** ** Idempotence *)

(** C3, as stated, fails for the same translation unit: processing the
    header twice does report a redefinition conflict, the one its first
    processing causes at line 31. *)
Lemma double_inclusion_reports_conflict :
  conflicts (process_header (include_header env_unused_predefined))
  = [Redefined YP_ATTRIBUTE_UNUSED
       (object_like attribute_unused_reserved)
       (object_like attribute_unused)].
Proof. vm_compute. reflexivity. Qed.

(** C3, amended: for every state of the preprocessor (any macro
    environment, hence both platform branches), processing the header a
    second time changes nothing.  After the first processing
    [YARP_DEFINES_H] is defined, so the second one skips the whole body:
    every macro, the four symbols among them, has the definition it had
    after a single processing, and the second processing reports no
    redefinition beyond those of the first. *)
Theorem second_inclusion_is_noop (st : pp_state) :
  process_header (process_header st) = process_header st ∧
  (∀ name, macros (process_header (process_header st)) !! name
           = macros (process_header st) !! name) ∧
  conflicts (process_header (process_header st))
  = conflicts (process_header st).
Proof.
  rewrite process_header_idempotent. done.
Qed.

(** ** The two concrete scenarios *)

(** C4, as stated, fails when [YARP_DEFINES_H] is already defined: none of
    the four symbols is predefined, [_WIN32] is not defined, and after
    processing the header none of the four symbols is defined. *)
Lemma posix_scenario_behind_guard :
  defined env_guard_predefined WIN32 = false ∧
  Forall (λ s, env_guard_predefined !! s = None) provided_symbols ∧
  Forall (λ s, macros (include_header env_guard_predefined) !! s = None)
    provided_symbols.
Proof.
  split; [vm_compute; reflexivity|].
  split; repeat constructor.
Qed.

(** C4, amended: on the non-Windows branch ([_WIN32] undefined), starting
    from an environment in which neither the inclusion guard
    [YARP_DEFINES_H] nor any of the four symbols is predefined, after
    processing the header once [_XOPEN_SOURCE] is defined as [700],
    [YP_IMPORTED_FUNCTION] and [YP_EXPORTED_FUNCTION] both expand to
    [__attribute__((__visibility__("default")))], and
    [YP_ATTRIBUTE_UNUSED] expands to [__attribute__((unused))]. *)
Theorem posix_scenario (env : gmap string macro) :
  defined env YARP_DEFINES_H = false →
  defined env WIN32 = false →
  Forall (λ s, env !! s = None) provided_symbols →
  expansion (macros (include_header env)) XOPEN_SOURCE
    = Some [PPNumber "700"] ∧
  expansion (macros (include_header env)) YP_IMPORTED_FUNCTION
    = Some visibility_default ∧
  expansion (macros (include_header env)) YP_EXPORTED_FUNCTION
    = Some visibility_default ∧
  expansion (macros (include_header env)) YP_ATTRIBUTE_UNUSED
    = Some attribute_unused.
Proof.
  intros Hg Hw Hnone. unfold provided_symbols in Hnone.
  apply Forall_cons in Hnone as [Hx Hnone].
  apply Forall_cons in Hnone as [Hi Hnone].
  apply Forall_cons in Hnone as [He _].
  unfold expansion.
  rewrite lookup_XOPEN_SOURCE, lookup_YP_IMPORTED_FUNCTION,
    lookup_YP_EXPORTED_FUNCTION, lookup_YP_ATTRIBUTE_UNUSED by done.
  rewrite Hw, Hx, Hi, He. done.
Qed.

Lemma posix_scenario_witness :
  expansion (macros (include_header ∅)) XOPEN_SOURCE
    = Some [PPNumber "700"] ∧
  expansion (macros (include_header ∅)) YP_IMPORTED_FUNCTION
    = Some visibility_default ∧
  expansion (macros (include_header ∅)) YP_EXPORTED_FUNCTION
    = Some visibility_default ∧
  expansion (macros (include_header ∅)) YP_ATTRIBUTE_UNUSED
    = Some attribute_unused.
Proof.
  apply (posix_scenario ∅).
  - reflexivity.
  - reflexivity.
  - repeat constructor.
Defined.

(** C5, as stated, fails when [YARP_DEFINES_H] is already defined: on the
    Windows branch with none of the four symbols predefined, the three
    attribute macros stay undefined. *)
Lemma windows_scenario_behind_guard :
  defined env_guard_predefined_windows WIN32 = true ∧
  Forall (λ s, env_guard_predefined_windows !! s = None) provided_symbols ∧
  Forall (λ s, macros (include_header env_guard_predefined_windows) !! s
               = None)
    [YP_IMPORTED_FUNCTION; YP_EXPORTED_FUNCTION; YP_ATTRIBUTE_UNUSED].
Proof.
  split; [vm_compute; reflexivity|].
  split; repeat constructor.
Qed.

(** C5, amended: on the Windows branch ([_WIN32] defined), starting from an
    environment in which neither the inclusion guard [YARP_DEFINES_H] nor
    any of the four symbols is predefined, after processing the header once
    [YP_IMPORTED_FUNCTION] expands to [__declspec(dllimport)],
    [YP_EXPORTED_FUNCTION] expands to [__declspec(dllexport)], and
    [YP_ATTRIBUTE_UNUSED] expands to the empty token sequence. *)
Theorem windows_scenario (env : gmap string macro) :
  defined env YARP_DEFINES_H = false →
  defined env WIN32 = true →
  Forall (λ s, env !! s = None) provided_symbols →
  expansion (macros (include_header env)) YP_IMPORTED_FUNCTION
    = Some declspec_dllimport ∧
  expansion (macros (include_header env)) YP_EXPORTED_FUNCTION
    = Some declspec_dllexport ∧
  expansion (macros (include_header env)) YP_ATTRIBUTE_UNUSED
    = Some [].
Proof.
  intros Hg Hw Hnone. unfold provided_symbols in Hnone.
  apply Forall_cons in Hnone as [_ Hnone].
  apply Forall_cons in Hnone as [Hi Hnone].
  apply Forall_cons in Hnone as [He _].
  unfold expansion.
  rewrite lookup_YP_IMPORTED_FUNCTION,
    lookup_YP_EXPORTED_FUNCTION, lookup_YP_ATTRIBUTE_UNUSED by done.
  rewrite Hw, Hi, He. done.
Qed.

Lemma windows_scenario_witness :
  expansion (macros (include_header env_windows)) YP_IMPORTED_FUNCTION
    = Some declspec_dllimport ∧
  expansion (macros (include_header env_windows)) YP_EXPORTED_FUNCTION
    = Some declspec_dllexport ∧
  expansion (macros (include_header env_windows)) YP_ATTRIBUTE_UNUSED
    = Some [].
Proof.
  apply (windows_scenario env_windows).
  - vm_compute. reflexivity.
  - vm_compute. reflexivity.
  - repeat constructor.
Defined.

(** ** The feature-test symbol *)

(** C6, as stated, fails in two ways.  A predefined [_XOPEN_SOURCE] keeps
    the caller's value (line 8 skips line 9): predefined as [600], it is
    still [600] afterwards.  And behind an already defined
    [YARP_DEFINES_H] it is not defined at all. *)
Lemma feature_test_symbol_not_700 :
  expansion (macros (include_header env_xopen_600)) XOPEN_SOURCE
    = Some [PPNumber "600"] ∧
  expansion (macros (include_header env_guard_predefined)) XOPEN_SOURCE
    = None.
Proof. split; vm_compute; reflexivity. Qed.

(** C6, amended: for every initial macro environment in which
    [YARP_DEFINES_H] is not defined, and both platform branches, after the
    header is processed once [_XOPEN_SOURCE] is defined: with the value
    [700] when it was not predefined, and with the caller's definition,
    unchanged, when it was. *)
Theorem feature_test_symbol_defined (env : gmap string macro) :
  defined env YARP_DEFINES_H = false →
  match env !! XOPEN_SOURCE with
  | None =>
      macros (include_header env) !! XOPEN_SOURCE
      = Some (object_like [PPNumber "700"])
  | Some caller =>
      macros (include_header env) !! XOPEN_SOURCE = Some caller
  end.
Proof.
  intros Hg. rewrite lookup_XOPEN_SOURCE by done.
  by destruct (env !! XOPEN_SOURCE).
Qed.

Lemma feature_test_symbol_defined_witness :
  macros (include_header env_windows) !! XOPEN_SOURCE
  = Some (object_like [PPNumber "700"]).
Proof.
  apply (feature_test_symbol_defined env_windows).
  vm_compute. reflexivity.
Defined.

(** ** All four symbols end up defined *)

(** C7, as stated, fails when [YARP_DEFINES_H] is already defined and the
    symbols are not: the body is skipped and they stay undefined. *)
Lemma symbols_undefined_behind_guard :
  Forall (λ s, macros (include_header env_guard_predefined_windows) !! s
               = None)
    provided_symbols.
Proof. repeat constructor. Qed.

(** C7, amended: for every initial macro environment in which
    [YARP_DEFINES_H] is not defined, and both platform branches, after the
    header is processed each of the four symbols is defined, either with
    the value the header supplies on that platform branch or with the
    caller's predefined value. *)
Theorem provided_symbols_defined (env : gmap string macro) (s : string) :
  defined env YARP_DEFINES_H = false →
  s ∈ provided_symbols →
  is_Some (macros (include_header env) !! s) ∧
  (macros (include_header env) !! s
     = header_supplies (defined env WIN32) s ∨
   macros (include_header env) !! s = env !! s).
Proof.
  intros Hg Hs.
  apply elem_of_provided_symbols in Hs as [-> | [-> | [-> | ->]]].
  - rewrite lookup_XOPEN_SOURCE by done. split; [by eexists|].
    destruct (env !! XOPEN_SOURCE); [by right | by left].
  - rewrite lookup_YP_IMPORTED_FUNCTION by done. split; [by eexists|].
    destruct (env !! YP_IMPORTED_FUNCTION); [by right | by left].
  - rewrite lookup_YP_EXPORTED_FUNCTION by done. split; [by eexists|].
    destruct (env !! YP_EXPORTED_FUNCTION); [by right | by left].
  - rewrite lookup_YP_ATTRIBUTE_UNUSED by done. split; [by eexists|].
    by left.
Qed.

Lemma provided_symbols_defined_witness :
  is_Some (macros (include_header env_linux_override)
             !! YP_EXPORTED_FUNCTION) ∧
  (macros (include_header env_linux_override) !! YP_EXPORTED_FUNCTION
     = header_supplies (defined env_linux_override WIN32)
         YP_EXPORTED_FUNCTION ∨
   macros (include_header env_linux_override) !! YP_EXPORTED_FUNCTION
     = env_linux_override !! YP_EXPORTED_FUNCTION).
Proof.
  apply (provided_symbols_defined env_linux_override YP_EXPORTED_FUNCTION).
  - vm_compute. reflexivity.
  - apply elem_of_provided_symbols. right. right. left. reflexivity.
Defined.

(** ** What the result depends on *)

(** C8, as stated, fails: the empty environment and the one that only
    defines [YARP_DEFINES_H] agree on [_WIN32] and on the four symbols, and
    the header defines the symbols in the first and not in the second. *)
Lemma inclusion_guard_influences_result :
  defined (∅ : gmap string macro) WIN32
    = defined env_guard_predefined WIN32 ∧
  agree_on provided_symbols ∅ env_guard_predefined ∧
  macros (include_header ∅) !! XOPEN_SOURCE
    = Some (object_like [PPNumber "700"]) ∧
  macros (include_header env_guard_predefined) !! XOPEN_SOURCE = None.
Proof.
  split; [reflexivity|]. split; [repeat constructor|].
  split; vm_compute; reflexivity.
Qed.

(** C8, amended: the final definitions of the four symbols are determined
    by whether [_WIN32] is defined, whether the inclusion guard
    [YARP_DEFINES_H] is defined, and the predefinition state of the four
    symbols.  Two environments that agree on these three things get the
    same final definition for each of the four symbols, however they differ
    elsewhere; no other platform-identification macro has any influence. *)
Theorem result_depends_on_win32_guard_and_symbols
    (env1 env2 : gmap string macro) :
  defined env1 WIN32 = defined env2 WIN32 →
  defined env1 YARP_DEFINES_H = defined env2 YARP_DEFINES_H →
  agree_on provided_symbols env1 env2 →
  agree_on provided_symbols
    (macros (include_header env1)) (macros (include_header env2)).
Proof.
  intros Hw Hg Hsame. unfold agree_on, provided_symbols in *.
  destruct (defined env2 YARP_DEFINES_H) eqn:Hg2.
  { unfold include_header.
    rewrite !process_header_guarded by (by rewrite macros_start). done. }
  apply Forall_cons in Hsame as [Hx Hsame].
  apply Forall_cons in Hsame as [Hi Hsame].
  apply Forall_cons in Hsame as [He _].
  repeat constructor.
  - rewrite !lookup_XOPEN_SOURCE by done. by rewrite Hx.
  - rewrite !lookup_YP_IMPORTED_FUNCTION by done. by rewrite Hw, Hi.
  - rewrite !lookup_YP_EXPORTED_FUNCTION by done. by rewrite Hw, He.
  - rewrite !lookup_YP_ATTRIBUTE_UNUSED by done. by rewrite Hw.
Qed.

Lemma result_depends_on_win32_guard_and_symbols_witness :
  agree_on provided_symbols
    (macros (include_header env_linux_override))
    (macros (include_header env_apple_override)).
Proof.
  apply (result_depends_on_win32_guard_and_symbols
           env_linux_override env_apple_override).
  - vm_compute. reflexivity.
  - vm_compute. reflexivity.
  - repeat constructor.
Defined.

(** ** Frame properties *)

(** C9: if the inclusion guard [YARP_DEFINES_H] is already defined when
    the header is processed, the whole state of the preprocessor is left as
    it was: the macro environment is unchanged, so none of the four symbols
    is defined or modified, even if they were all undefined, and nothing is
    reported. *)
Theorem guard_defined_header_skipped (env : gmap string macro) :
  is_Some (env !! YARP_DEFINES_H) →
  include_header env = start env ∧
  macros (include_header env) = env ∧
  Forall (λ s, macros (include_header env) !! s = env !! s)
    provided_symbols.
Proof.
  intros Hg%defined_true. unfold include_header.
  rewrite process_header_guarded by done.
  split; [done|]. split; [done|]. repeat constructor.
Qed.

Lemma guard_defined_header_skipped_witness :
  include_header env_guard_predefined = start env_guard_predefined ∧
  macros (include_header env_guard_predefined) = env_guard_predefined ∧
  Forall (λ s, macros (include_header env_guard_predefined) !! s
               = env_guard_predefined !! s)
    provided_symbols.
Proof.
  apply (guard_defined_header_skipped env_guard_predefined).
  exists (object_like []). vm_compute. reflexivity.
Defined.

(** C10: for every initial macro environment (so on both platform
    branches), processing the header defines or modifies no macro other
    than [YARP_DEFINES_H], [_XOPEN_SOURCE], [YP_IMPORTED_FUNCTION],
    [YP_EXPORTED_FUNCTION] and [YP_ATTRIBUTE_UNUSED]: every other name has
    after the header the definition, or the absence of one, it had
    before. *)
Theorem other_macros_unchanged (env : gmap string macro) (name : string) :
  name ∉ header_names →
  macros (include_header env) !! name = env !! name.
Proof. apply lookup_other_name. Qed.

Lemma other_macros_unchanged_witness :
  macros (include_header env_windows) !! "NDEBUG" = env_windows !! "NDEBUG" ∧
  macros (include_header env_windows) !! "__linux__" = None.
Proof.
  split.
  - apply (other_macros_unchanged env_windows "NDEBUG").
    intros Hin. apply elem_of_header_names in Hin.
    vm_compute in Hin. intuition discriminate.
  - rewrite (other_macros_unchanged env_windows "__linux__").
    + vm_compute. reflexivity.
    + intros Hin. apply elem_of_header_names in Hin.
      vm_compute in Hin. intuition discriminate.
Defined.

(** * Further properties *)

(** ** Directives in general *)

(** Induction over directives, with the groups of a conditional as
    lists. *)
Lemma directive_nested_ind (P : directive → Prop) :
  (∀ name body, P (Define name body)) →
  (∀ c t e, Forall P t → Forall P e → P (IfGroup c t e)) →
  ∀ d, P d.
Proof.
  intros Hdef Hif. fix IH 1. intros [name body | c t e].
  - apply Hdef.
  - apply Hif.
    + induction t as [|d t IHt]; constructor; [apply IH | exact IHt].
    + induction e as [|d e IHe]; constructor; [apply IH | exact IHe].
Qed.

Lemma exec_group_app g1 g2 st :
  exec_group (g1 ++ g2) st = exec_group g2 (exec_group g1 st).
Proof. unfold exec_group. apply fold_left_app. Qed.

(** No directive of the language undefines a macro. *)
Lemma define_keeps_defined name body st k :
  defined (macros st) k = true →
  defined (macros (define name body st)) k = true.
Proof.
  intros Hk. destruct (decide (name = k)) as [-> | Hne].
  - apply defined_true. rewrite lookup_define_eq. by eexists.
  - by rewrite defined_define_ne.
Qed.

Lemma exec_group_keeps_defined_by g k :
  Forall (λ d, ∀ st, defined (macros st) k = true →
                     defined (macros (exec d st)) k = true) g →
  ∀ st, defined (macros st) k = true →
        defined (macros (exec_group g st)) k = true.
Proof.
  induction 1 as [|d g Hd _ IHg]; intros st Hk; [done|].
  rewrite exec_group_cons. by apply IHg, Hd.
Qed.

Lemma exec_keeps_defined d k :
  ∀ st, defined (macros st) k = true →
        defined (macros (exec d st)) k = true.
Proof.
  induction d as [name body | c t e IHt IHe] using directive_nested_ind;
    intros st Hk.
  - by apply define_keeps_defined.
  - destruct c as [name | name].
    + rewrite exec_if_defined.
      destruct (defined (macros st) name);
        by apply exec_group_keeps_defined_by.
    + rewrite exec_ifndef.
      destruct (defined (macros st) name);
        by apply exec_group_keeps_defined_by.
Qed.

Lemma exec_group_keeps_defined g k st :
  defined (macros st) k = true →
  defined (macros (exec_group g st)) k = true.
Proof.
  apply exec_group_keeps_defined_by, Forall_forall.
  intros d _. apply exec_keeps_defined.
Qed.

(** What a directive does to the macros does not depend on what has been
    reported so far, and its own reports come after the earlier ones. *)
Lemma with_log_with_log l1 l2 st :
  with_log l1 (with_log l2 st) = with_log (l1 ++ l2) st.
Proof. unfold with_log. cbn [macros redefs]. by rewrite app_assoc. Qed.

Lemma define_with_log name body st :
  define name body st
  = with_log (redefs st) (define name body (start (macros st))).
Proof.
  unfold define, with_log, start. cbn [macros redefs].
  destruct (macros st !! name); cbn [macros redefs]; [done|].
  by rewrite app_nil_r.
Qed.

Lemma exec_group_with_log_by g :
  Forall (λ d, ∀ st, exec d st
                     = with_log (redefs st) (exec d (start (macros st)))) g →
  ∀ st, exec_group g st
        = with_log (redefs st) (exec_group g (start (macros st))).
Proof.
  induction 1 as [|d g Hd _ IHg]; intros st.
  - rewrite !exec_group_nil. unfold with_log, start.
    destruct st; cbn [macros redefs]. by rewrite app_nil_r.
  - rewrite !exec_group_cons.
    rewrite (IHg (exec d st)), (IHg (exec d (start (macros st)))).
    rewrite with_log_with_log. rewrite (Hd st). done.
Qed.

Lemma exec_with_log d :
  ∀ st, exec d st = with_log (redefs st) (exec d (start (macros st))).
Proof.
  induction d as [name body | c t e IHt IHe] using directive_nested_ind;
    intros st.
  - apply define_with_log.
  - destruct c as [name | name].
    + rewrite !exec_if_defined, macros_start.
      destruct (defined (macros st) name);
        by apply exec_group_with_log_by.
    + rewrite !exec_ifndef, macros_start.
      destruct (defined (macros st) name);
        by apply exec_group_with_log_by.
Qed.

Lemma process_header_with_log st :
  process_header st = with_log (redefs st) (include_header (macros st)).
Proof.
  unfold include_header, process_header.
  apply exec_group_with_log_by, Forall_forall.
  intros d _. apply exec_with_log.
Qed.

(** ** The header: further lookups *)

Lemma lookup_YARP_DEFINES_H env :
  defined env YARP_DEFINES_H = false →
  macros (include_header env) !! YARP_DEFINES_H = Some (object_like []).
Proof. intros Hg. unfold include_header. walk_header; settle. Qed.

Lemma include_header_guarded env :
  defined env YARP_DEFINES_H = true → include_header env = start env.
Proof. intros Hg. unfold include_header. by rewrite process_header_guarded. Qed.

Lemma lookup_header_defaults_other win k :
  k ∉ header_names → header_defaults win !! k = None.
Proof.
  intros Hout. rewrite elem_of_header_names in Hout.
  unfold header_defaults.
  rewrite !lookup_insert_ne by (intros <-; apply Hout; tauto).
  apply lookup_empty.
Qed.

Lemma macros_include_header env :
  defined env YARP_DEFINES_H = false →
  macros (include_header env)
  = <[ YP_ATTRIBUTE_UNUSED := unused_marker (defined env WIN32) ]>
      (env ∪ header_defaults (defined env WIN32)).
Proof.
  intros Hg. apply map_eq. intros k.
  destruct (decide (k = YP_ATTRIBUTE_UNUSED)) as [-> | Hu].
  { rewrite lookup_insert_eq. by apply lookup_YP_ATTRIBUTE_UNUSED. }
  rewrite lookup_insert_ne by done. rewrite lookup_union.
  destruct (decide (k = YARP_DEFINES_H)) as [-> | Hk1].
  { rewrite lookup_YARP_DEFINES_H by done.
    apply defined_false in Hg. rewrite Hg. unfold header_defaults.
    by rewrite lookup_insert_eq. }
  destruct (decide (k = XOPEN_SOURCE)) as [-> | Hk2].
  { rewrite lookup_XOPEN_SOURCE by done. unfold header_defaults.
    rewrite lookup_insert_ne, lookup_insert_eq by names_differ.
    by destruct (env !! XOPEN_SOURCE). }
  destruct (decide (k = YP_IMPORTED_FUNCTION)) as [-> | Hk3].
  { rewrite lookup_YP_IMPORTED_FUNCTION by done. unfold header_defaults.
    rewrite !lookup_insert_ne, lookup_insert_eq by names_differ.
    by destruct (env !! YP_IMPORTED_FUNCTION). }
  destruct (decide (k = YP_EXPORTED_FUNCTION)) as [-> | Hk4].
  { rewrite lookup_YP_EXPORTED_FUNCTION by done. unfold header_defaults.
    rewrite !lookup_insert_ne, lookup_insert_eq by names_differ.
    by destruct (env !! YP_EXPORTED_FUNCTION). }
  assert (k ∉ header_names) as Hout
    by (rewrite elem_of_header_names; tauto).
  rewrite lookup_other_name, lookup_header_defaults_other by done.
  by destruct (env !! k).
Qed.

Lemma final_environment_raw env :
  macros (include_header env)
  = if defined env YARP_DEFINES_H then env
    else <[ YP_ATTRIBUTE_UNUSED := unused_marker (defined env WIN32) ]>
           (env ∪ header_defaults (defined env WIN32)).
Proof.
  destruct (defined env YARP_DEFINES_H) eqn:Hg.
  - by rewrite include_header_guarded.
  - by apply macros_include_header.
Qed.

Lemma include_header_is_Some env k :
  defined env YARP_DEFINES_H = false →
  is_Some (macros (include_header env) !! k) ↔
  is_Some (env !! k) ∨ k ∈ header_names.
Proof.
  intros Hg. destruct (decide (k ∈ header_names)) as [Hin | Hout].
  - split; [by right|]. intros _.
    apply elem_of_header_names in Hin as [-> | [-> | [-> | [-> | ->]]]].
    + rewrite lookup_YARP_DEFINES_H by done. by eexists.
    + rewrite lookup_XOPEN_SOURCE by done. by eexists.
    + rewrite lookup_YP_IMPORTED_FUNCTION by done. by eexists.
    + rewrite lookup_YP_EXPORTED_FUNCTION by done. by eexists.
    + rewrite lookup_YP_ATTRIBUTE_UNUSED by done. by eexists.
  - rewrite lookup_other_name by done. tauto.
Qed.

Lemma defined_insert_ne (env : gmap string macro) k v name :
  k ≠ name → defined (<[k := v]> env) name = defined env name.
Proof. intros Hne. unfold defined. by rewrite lookup_insert_ne. Qed.

(** ** The inclusion guard after the header *)

(** X1: whatever the state of the preprocessor, [YARP_DEFINES_H] is
    defined once the header has been processed.  If it was not defined
    before, it is now an object-like macro with an empty replacement list
    (line 5); if it was, it still has the definition it had. *)
Theorem inclusion_guard_defined_afterwards (st : pp_state) :
  defined (macros (process_header st)) YARP_DEFINES_H = true ∧
  (macros st !! YARP_DEFINES_H = None →
   macros (process_header st) !! YARP_DEFINES_H = Some (object_like [])) ∧
  (∀ m, macros st !! YARP_DEFINES_H = Some m →
        macros (process_header st) !! YARP_DEFINES_H = Some m).
Proof.
  split; [apply guard_defined_after|]. split.
  - intros Hg%defined_false.
    rewrite process_header_with_log. cbn [with_log macros].
    by apply lookup_YARP_DEFINES_H.
  - intros m Hm. rewrite process_header_guarded; [done|].
    apply defined_true. by eexists.
Qed.

Lemma inclusion_guard_defined_afterwards_witness :
  macros (process_header (start env_windows)) !! YARP_DEFINES_H
    = Some (object_like []) ∧
  macros (process_header (start env_guard_predefined)) !! YARP_DEFINES_H
    = Some (object_like []).
Proof.
  split.
  - apply (proj1 (proj2 (inclusion_guard_defined_afterwards
                           (start env_windows)))).
    vm_compute. reflexivity.
  - apply (proj2 (proj2 (inclusion_guard_defined_afterwards
                           (start env_guard_predefined)))).
    vm_compute. reflexivity.
Defined.

(** ** The names the header defines *)

(** X2: the header never undefines a macro: every name defined before is
    defined afterwards.  When [YARP_DEFINES_H] is not defined beforehand,
    the names defined afterwards are exactly those defined before together
    with the five names of the header. *)
Theorem header_domain (env : gmap string macro) :
  dom env ⊆ dom (macros (include_header env)) ∧
  (env !! YARP_DEFINES_H = None →
   dom (macros (include_header env)) = dom env ∪ list_to_set header_names).
Proof.
  split.
  - intros k Hk%elem_of_dom. apply elem_of_dom.
    destruct (defined env YARP_DEFINES_H) eqn:Hg.
    + by rewrite include_header_guarded.
    + apply include_header_is_Some; [done | by left].
  - intros Hg%defined_false. apply set_eq. intros k.
    rewrite elem_of_union, !elem_of_dom, elem_of_list_to_set.
    by apply include_header_is_Some.
Qed.

Lemma header_domain_witness :
  dom (macros (include_header env_windows))
  = dom env_windows ∪ list_to_set header_names.
Proof.
  apply (header_domain env_windows). vm_compute. reflexivity.
Defined.

(** ** Only object-like macros are introduced *)



(** ** When the header causes a conflict *)


(** ** The final environment in closed form *)

(** X5: behind a defined [YARP_DEFINES_H] the environment is returned as it
    is.  Otherwise the final environment is the caller's environment,
    completed by the header's defaults for [YARP_DEFINES_H],
    [_XOPEN_SOURCE], [YP_IMPORTED_FUNCTION] and [YP_EXPORTED_FUNCTION]
    where the caller defines none (the caller's definitions win), and with
    [YP_ATTRIBUTE_UNUSED] set to the definition of the platform branch (the
    header's definition wins). *)
Theorem final_environment (env : gmap string macro) :
  macros (include_header env)
  = if defined env YARP_DEFINES_H then env
    else <[ YP_ATTRIBUTE_UNUSED := unused_marker (defined env WIN32) ]>
           (env ∪ header_defaults (defined env WIN32)).
Proof. apply final_environment_raw. Qed.

(** ** The header and the directives around it *)

(** X6: a [#define] of a name that is neither [_WIN32] nor one of the five
    names of the header commutes with the header: placed before or after
    the [#include], it leads to the same macro environment and to the same
    reported redefinitions, up to their order. *)
Theorem unrelated_define_commutes
    (st : pp_state) (k : string) (body : list pp_token) :
  k ∉ header_names →
  k ≠ WIN32 →
  macros (exec_group (Define k body :: defines_h) st)
  = macros (exec_group (defines_h ++ [Define k body]) st) ∧
  redefs (exec_group (Define k body :: defines_h) st)
  ≡ₚ redefs (exec_group (defines_h ++ [Define k body]) st).
Proof.
  intros Hout Hw.
  assert (k ≠ YARP_DEFINES_H ∧ k ≠ YP_ATTRIBUTE_UNUSED) as [Hkg Hku]
    by (rewrite elem_of_header_names in Hout; split; intros ->; tauto).
  rewrite exec_group_cons, exec_group_app, exec_group_cons, exec_group_nil,
    !exec_define.
  fold (process_header (define k body st)). fold (process_header st).
  assert (macros (process_header st) !! k = macros st !! k) as Hk.
  { rewrite process_header_with_log. cbn [with_log macros].
    by apply lookup_other_name. }
  assert (redefs (include_header (<[k := object_like body]> (macros st)))
          = redefs (include_header (macros st))) as Hlog.
  { rewrite !redefs_include_header.
    rewrite !defined_insert_ne by done. by rewrite lookup_insert_ne. }
  split.
  - rewrite macros_define.
    rewrite (process_header_with_log (define k body st)),
      (process_header_with_log st).
    cbn [with_log macros]. rewrite macros_define, !final_environment_raw.
    rewrite !defined_insert_ne by done.
    destruct (defined (macros st) YARP_DEFINES_H); [done|].
    rewrite <- insert_union_l. by apply insert_insert_ne.
  - rewrite redefs_define, Hk.
    rewrite (process_header_with_log (define k body st)),
      (process_header_with_log st).
    cbn [with_log redefs]. rewrite macros_define, Hlog, redefs_define.
    rewrite <- !app_assoc. apply Permutation_app_head, Permutation_app_comm.
Qed.

Lemma unrelated_define_commutes_witness :
  macros (exec_group (Define "NDEBUG" [] :: defines_h)
            (start env_unused_predefined))
  = macros (exec_group (defines_h ++ [Define "NDEBUG" []])
              (start env_unused_predefined)) ∧
  redefs (exec_group (Define "NDEBUG" [] :: defines_h)
            (start env_unused_predefined))
  ≡ₚ redefs (exec_group (defines_h ++ [Define "NDEBUG" []])
               (start env_unused_predefined)).
Proof.
  apply (unrelated_define_commutes (start env_unused_predefined) "NDEBUG" []).
  - intros Hin. apply elem_of_header_names in Hin.
    vm_compute in Hin. intuition discriminate.
  - vm_compute. discriminate.
Defined.

(** X7: once the header has been processed, processing it again later in
    the translation unit changes nothing, whatever [#define]s and
    conditional groups come in between: none of them undefines
    [YARP_DEFINES_H], so line 4 skips the body again. *)
Theorem later_inclusion_is_noop (g : list directive) (st : pp_state) :
  exec_group (defines_h ++ g ++ defines_h) st
  = exec_group (defines_h ++ g) st.
Proof.
  rewrite !exec_group_app.
  fold (process_header st).
  fold (process_header (exec_group g (process_header st))).
  apply process_header_guarded, exec_group_keeps_defined,
    guard_defined_after.
Qed.
